(** * Verification model of epub_to_txt.py

    A shallow embedding of the EPUB-to-text converter: the gap-preserving
    normalizer [clean_text_preserving_gaps], the spine resolver
    [iter_documents_in_order], the conversion [epub_to_txt] and the batch
    driver [convert_directory]. *)

From Stdlib Require Import List String Ascii NArith Bool Lia.
From stdpp Require Import base list gmap sets strings sorting.
Import ListNotations.
Set Warnings "-register-all".

(* ================================================================= *)
(** ** Python text values *)

(** A Python [str] is a sequence of Unicode code points. *)
Abbreviation pystr := (list N).

(** [str.isspace] on one code point (CPython's [Py_UNICODE_ISSPACE]). *)
Definition is_space (c : N) : bool :=
  ((9 <=? c) && (c <=? 13))%N || ((28 <=? c) && (c <=? 32))%N
  || (c =? 133)%N || (c =? 160)%N || (c =? 5760)%N
  || ((8192 <=? c) && (c <=? 8202))%N || (c =? 8232)%N || (c =? 8233)%N
  || (c =? 8239)%N || (c =? 8287)%N || (c =? 12288)%N.

(** The line boundaries of [str.splitlines]. *)
Definition is_linebreak (c : N) : bool :=
  ((10 <=? c) && (c <=? 13))%N || ((28 <=? c) && (c <=? 30))%N
  || (c =? 133)%N || (c =? 8232)%N || (c =? 8233)%N.

Definition nl : pystr := [10%N].

(** Left part of [str.strip()]: drop the leading whitespace. *)
Fixpoint lstrip (s : pystr) : pystr :=
  match s with
  | [] => []
  | c :: r => if is_space c then lstrip r else s
  end.

(** [str.strip()] with no argument: [s[i:j]] where [i] skips leading and
    [j] trailing whitespace. *)
Definition strip (s : pystr) : pystr := rev (lstrip (rev (lstrip s))).

(** [sep.join(xs)]. *)
Fixpoint join {A} (sep : list A) (xs : list (list A)) : list A :=
  match xs with
  | [] => []
  | [x] => x
  | x :: r => x ++ sep ++ join sep r
  end.

(** [str.splitlines()] (keepends=False).  [cur] holds the current line,
    reversed.  "\r\n" counts as one boundary; a final empty segment is not
    reported. *)
Fixpoint splitlines_aux (s : pystr) (cur : pystr) : list pystr :=
  match s with
  | [] => match cur with [] => [] | _ => [rev cur] end
  | c :: r =>
      if (c =? 13)%N then
        match r with
        | d :: r' => if (d =? 10)%N then rev cur :: splitlines_aux r' []
                     else rev cur :: splitlines_aux r []
        | [] => rev cur :: splitlines_aux r []
        end
      else if is_linebreak c then rev cur :: splitlines_aux r []
      else splitlines_aux r (c :: cur)
  end.

Definition splitlines (s : pystr) : list pystr := splitlines_aux s [].

(** [str.split("\n")], used to read back the lines of an output text. *)
Fixpoint split_nl_aux (s : pystr) (cur : pystr) : list pystr :=
  match s with
  | [] => [rev cur]
  | c :: r => if (c =? 10)%N then rev cur :: split_nl_aux r []
              else split_nl_aux r (c :: cur)
  end.

Definition split_nl (s : pystr) : list pystr := split_nl_aux s [].

Definition is_nil {A} (l : list A) : bool :=
  match l with [] => true | _ => false end.

(** Code points of an ASCII literal, to write concrete inputs. *)
Definition py (s : string) : pystr :=
  map (fun a => N_of_ascii a) (list_ascii_of_string s).

(* ================================================================= *)
(** ** The parsed document tree (BeautifulSoup, html.parser) *)

(** A node is a text string (NavigableString) or an element with its tag
    name, its class list and its children. *)
Inductive node :=
| Text (s : pystr)
| Elem (tag : string) (classes : list string) (children : list node).

(** The [BeautifulSoup] object: the top-level children. *)
Definition document := list node.

(** [for spacer in soup.select(".empty-line"): spacer.string = "\n"].
    [select] returns matches in document order and the [string] setter
    clears the children of the element and appends one string; markers
    nested in an outer marker are detached before their turn comes, so the
    loop equals a top-down rewrite. *)
Fixpoint mark_spacer (n : node) : node :=
  match n with
  | Text s => Text s
  | Elem t cls cs =>
      if existsb (String.eqb "empty-line") cls then Elem t cls [Text nl]
      else Elem t cls (map mark_spacer cs)
  end.

Definition mark_spacers (d : document) : document := map mark_spacer d.

(** The strings of a subtree in document order ([_all_strings]). *)
Fixpoint all_strings (n : node) : list pystr :=
  match n with
  | Text s => [s]
  | Elem _ _ cs => (fix go (cs : list node) : list pystr :=
                      match cs with
                      | [] => []
                      | c :: r => all_strings c ++ go r
                      end) cs
  end.

(** [soup.get_text(separator=sep, strip=False)]. *)
Definition get_text (sep : pystr) (d : document) : pystr :=
  join sep (flat_map all_strings d).

(* ================================================================= *)
(** ** clean_text_preserving_gaps *)

(** Loop state: the [cleaned] accumulator and the [previous_blank] flag. *)
Record clean_state := { cleaned : list pystr; previous_blank : bool }.

(** One iteration of [for line in lines]. *)
Definition clean_step (st : clean_state) (line : pystr) : clean_state :=
  let stripped := strip line in
  if is_nil stripped then
    if negb (is_nil (cleaned st)) && negb (previous_blank st)
    then {| cleaned := cleaned st ++ [[]]; previous_blank := true |}
    else {| cleaned := cleaned st; previous_blank := true |}
  else {| cleaned := cleaned st ++ [stripped]; previous_blank := false |}.

(** The blank-collapsing loop over the raw lines. *)
Definition clean_lines (lines : list pystr) : list pystr :=
  cleaned (fold_left clean_step lines
                     {| cleaned := []; previous_blank := false |}).

(** Everything after [get_text]: split, collapse, join, strip. *)
Definition clean_raw_text (raw_text : pystr) : pystr :=
  strip (join nl (clean_lines (splitlines raw_text))).

Definition clean_text_preserving_gaps (soup : document) : pystr :=
  clean_raw_text (get_text nl (mark_spacers soup)).

Example ex_splitlines :
  splitlines (py "a") ++ splitlines [] ++ splitlines [13; 10; 10; 97]%N
  = [py "a"; []; []; py "a"].
Proof. reflexivity. Qed.

(* ================================================================= *)
(** ** The EPUB package (ebooklib) *)

Definition ITEM_DOCUMENT : N := 9.

(** An item of the manifest: its id, its ebooklib type constant and its
    content, given as the tree BeautifulSoup parses it into. *)
Record item := { item_id : string; item_type : N; item_content : document }.

(** A spine entry: a bare id, or a tuple whose first element is the id
    (ebooklib reads the spine as [(idref, linear)] pairs). *)
Inductive spine_entry :=
| SBare (id : string)
| STuple (id : string) (rest : list string).

Record book := { spine : list spine_entry; items : list item }.

(** [spine_item[0] if isinstance(spine_item, tuple) else spine_item]. *)
Definition entry_id (e : spine_entry) : string :=
  match e with SBare id => id | STuple id _ => id end.

(** [book.get_item_with_id(uid)]: the first item whose id is [uid]. *)
Definition get_item_with_id (b : book) (uid : string) : option item :=
  List.find (fun it => String.eqb (item_id it) uid) (items b).

(** [book.get_items_of_type(t)], in manifest order. *)
Definition get_items_of_type (b : book) (t : N) : list item :=
  List.filter (fun it => N.eqb (item_type it) t) (items b).

(** The first loop of the generator: the items yielded while walking the
    spine, and the final [seen_ids]. *)
Fixpoint spine_pass (b : book) (sp : list spine_entry) (seen_ids : gset string)
  : list item * gset string :=
  match sp with
  | [] => ([], seen_ids)
  | spine_item :: r =>
      let item_id := entry_id spine_item in
      match get_item_with_id b item_id with
      | Some it =>
          if N.eqb (item_type it) ITEM_DOCUMENT then
            let '(out, seen') := spine_pass b r ({[item_id]} ∪ seen_ids) in
            (it :: out, seen')
          else spine_pass b r seen_ids
      | None => spine_pass b r seen_ids
      end
  end.

(** [iter_documents_in_order], as the list of the items it yields. *)
Definition iter_documents_in_order (b : book) : list item :=
  let '(out, seen_ids) := spine_pass b (spine b) ∅ in
  out ++ List.filter (fun it => negb (bool_decide (item_id it ∈ seen_ids)))
                     (get_items_of_type b ITEM_DOCUMENT).

(** [epub_to_txt]: the text written to [txt_path]. *)
Definition epub_to_txt (b : book) : pystr :=
  join (nl ++ nl)
       (map (fun it => clean_text_preserving_gaps (item_content it))
            (iter_documents_in_order b)).

(* ================================================================= *)
(** ** Batch mode *)

(** What [Path.is_file()] sees for a directory entry. *)
Inductive entry_kind := RegularFile | Directory | OtherEntry.

(** [name.rfind('.')], or [None] for -1. *)
Fixpoint rfind_dot_aux (s : string) (i : nat) (acc : option nat) : option nat :=
  match s with
  | EmptyString => acc
  | String c r => rfind_dot_aux r (S i) (if Ascii.eqb c "." then Some i else acc)
  end.

Definition rfind_dot (s : string) : option nat := rfind_dot_aux s 0 None.

(** [PurePath.suffix]: [name[i:]] when [0 < i < len(name) - 1]. *)
Definition suffix (name : string) : string :=
  match rfind_dot name with
  | Some i => if (0 <? i) && (i <? String.length name - 1)
              then String.substring i (String.length name - i) name
              else ""
  | None => ""
  end.

(** [PurePath.stem]: [name[:i]] under the same condition. *)
Definition stem (name : string) : string :=
  match rfind_dot name with
  | Some i => if (0 <? i) && (i <? String.length name - 1)
              then String.substring 0 i name
              else name
  | None => name
  end.

(** [str.lower()] on ASCII names. *)
Definition lower_ascii (c : ascii) : ascii :=
  let n := N_of_ascii c in
  if (65 <=? n)%N && (n <=? 90)%N then ascii_of_N (n + 32) else c.

Fixpoint lower (s : string) : string :=
  match s with
  | EmptyString => EmptyString
  | String c r => String (lower_ascii c) (lower r)
  end.

(** [path.is_file() and path.suffix.lower() == ".epub"]. *)
Definition is_epub_entry (e : string * entry_kind) : bool :=
  match snd e with
  | RegularFile => String.eqb (lower (suffix (fst e))) ".epub"
  | _ => false
  end.

(** Python orders paths of one directory by their names, code point by
    code point. *)
Definition name_le (s1 s2 : string) : Prop := String.leb s1 s2 = true.

#[global] Instance name_le_dec : RelDecision name_le.
Proof. intros s1 s2. unfold name_le. apply _. Defined.

(** Outcome of [convert_directory]: the [ValueError], the "No EPUB files
    found" message, or the conversions [(epub_file, target_txt)] run in
    order. *)
Inductive batch_outcome :=
| RaisedValueError
| ReportedNoFiles
| Converted (jobs : list (string * string)).

(** [convert_directory] on an input directory ([input_is_dir]) whose
    [iterdir()] lists [listing]. *)
Definition convert_directory (input_is_dir : bool)
           (listing : list (string * entry_kind)) : batch_outcome :=
  if negb input_is_dir then RaisedValueError else
  let epub_files := merge_sort name_le (map fst (List.filter is_epub_entry listing)) in
  match epub_files with
  | [] => ReportedNoFiles
  | _ => Converted (map (fun f => (f, (stem f ++ ".txt")%string)) epub_files)
  end.

(** The output directory after the jobs, each [epub_to_txt] call writing
    [conv src] to its target (opened with "w": the old content is
    replaced). *)
Definition run_jobs (conv : string -> pystr) (jobs : list (string * string))
           (out_dir : gmap string pystr) : gmap string pystr :=
  fold_left (fun d '(src, dst) => <[dst := conv src]> d) jobs out_dir.

Example ex_batch :
  convert_directory true [("b.epub", RegularFile); ("a.EPUB", RegularFile);
                          ("notes.txt", RegularFile)]
  = Converted [("a.EPUB", "a.txt"); ("b.epub", "b.txt")]%string.
Proof. vm_compute. reflexivity. Qed.

(* ================================================================= *)
(** ** The command line ([main]) *)

(** The namespace [parser.parse_args()] returns; an option not given on
    the command line is [None]. *)
Record cli_args := {
  input_file : option string; output_file : option string;
  input_dir : option string; output_dir : option string }.

(** Python truthiness of an optional string: [None] and [""] are false. *)
Definition truthy (o : option string) : bool :=
  match o with Some s => negb (String.eqb s "") | None => false end.

(** The string of a truthy option. *)
Definition arg_val (o : option string) : string :=
  match o with Some s => s | None => "" end.

(** What [main] does: [parser.error] (which exits, status 2) with its
    message, [epub_to_txt] on the two files, or [convert_directory] on the
    two directories. *)
Inductive main_result :=
| UsageError (msg : string)
| RunFile (inp out : string)
| RunDir (inp out : string).

Definition msg_both_modes : string :=
  "Specify either file arguments or directory arguments, not both.".
Definition msg_file_pair : string :=
  "Both --input-file and --output-file must be provided for single-file conversion.".
Definition msg_dir_pair : string :=
  "Both --input-dir and --output-dir must be provided for batch conversion.".
Definition msg_no_mode : string :=
  "Please provide either --input-file/--output-file for single conversion or --input-dir/--output-dir for batch conversion.".

Definition main (args : cli_args) : main_result :=
  let file_mode := truthy (input_file args) || truthy (output_file args) in
  let dir_mode := truthy (input_dir args) || truthy (output_dir args) in
  if file_mode && dir_mode then UsageError msg_both_modes else
  if truthy (input_file args) || truthy (output_file args) then
    if negb (truthy (input_file args) && truthy (output_file args))
    then UsageError msg_file_pair
    else RunFile (arg_val (input_file args)) (arg_val (output_file args))
  else if truthy (input_dir args) || truthy (output_dir args) then
    if negb (truthy (input_dir args) && truthy (output_dir args))
    then UsageError msg_dir_pair
    else RunDir (arg_val (input_dir args)) (arg_val (output_dir args))
  else UsageError msg_no_mode.

(* ================================================================= *)
(** ** Properties of the text helpers *)

(** Helper predicates for the statements below: a line with content, a
    string made of whitespace only. *)
Definition nonblank (l : pystr) : bool := negb (is_nil l).

Definition all_space (s : pystr) : Prop := Forall (fun c => is_space c = true) s.

(** The tree with the children of every [.empty-line] element removed
    (the outermost marker on each path; what is below it is gone). *)
Fixpoint clear_markers (n : node) : node :=
  match n with
  | Text s => Text s
  | Elem t cls cs =>
      if existsb (String.eqb "empty-line") cls then Elem t cls []
      else Elem t cls (map clear_markers cs)
  end.

(** An argument given as the empty string, read as not given. *)
Definition drop_empty (o : option string) : option string :=
  match o with Some s => if String.eqb s "" then None else Some s | None => None end.

Module TextFacts.

(** A string starting with a non-whitespace code point. *)
Definition starts_ns (s : pystr) : bool :=
  match s with c :: _ => negb (is_space c) | [] => false end.

(** A string that [strip] leaves alone: empty, or starting and ending with
    a non-whitespace code point. *)
Definition is_stripped (s : pystr) : bool :=
  is_nil s || (starts_ns s && starts_ns (rev s)).

(** A line without any [splitlines] boundary. *)
Definition no_break (s : pystr) : Prop := Forall (fun c => is_linebreak c = false) s.

Lemma lstrip_ns s : starts_ns s = true -> lstrip s = s.
Proof.
  destruct s as [|c r]; simpl; [discriminate|].
  destruct (is_space c); simpl; congruence.
Qed.

Lemma lstrip_head s : lstrip s = [] \/ starts_ns (lstrip s) = true.
Proof.
  induction s as [|c r IH]; simpl; [auto|].
  destruct (is_space c) eqn:E; [exact IH|]. right. simpl. now rewrite E.
Qed.

Lemma lstrip_snoc X h : is_space h = false -> lstrip (X ++ [h]) = lstrip X ++ [h].
Proof.
  intros Hh. induction X as [|c r IH]; simpl.
  - now rewrite Hh.
  - destruct (is_space c); [exact IH | reflexivity].
Qed.

Lemma starts_ns_app a b : starts_ns a = true -> starts_ns (a ++ b) = true.
Proof. destruct a; simpl; congruence. Qed.

Lemma strip_stripped s : is_stripped (strip s) = true.
Proof.
  unfold strip. destruct (lstrip_head s) as [E|E]; rewrite ?E; [reflexivity|].
  destruct (lstrip s) as [|c r]; [discriminate|]. simpl in E.
  apply negb_true_iff in E. simpl rev. rewrite lstrip_snoc by exact E.
  rewrite rev_app_distr. simpl. unfold is_stripped. simpl.
  rewrite E, rev_involutive. simpl.
  destruct (lstrip_head (rev r)) as [F|F]; rewrite ?F; simpl.
  - now rewrite E.
  - now apply starts_ns_app.
Qed.

Lemma stripped_strip s : is_stripped s = true -> strip s = s.
Proof.
  unfold is_stripped, strip. destruct s as [|c r]; [reflexivity|].
  simpl is_nil. simpl orb. intros H. apply andb_true_iff in H as [H1 H2].
  rewrite (lstrip_ns (c :: r) H1). rewrite (lstrip_ns (rev (c :: r)) H2).
  apply rev_involutive.
Qed.

Lemma strip_idem s : strip (strip s) = strip s.
Proof. apply stripped_strip, strip_stripped. Qed.

Lemma lstrip_Forall (P : N -> Prop) s : Forall P s -> Forall P (lstrip s).
Proof.
  induction s as [|c r IH]; simpl; [auto|]. intros H.
  destruct (is_space c); [apply IH; now inversion H | exact H].
Qed.

Lemma strip_Forall (P : N -> Prop) s : Forall P s -> Forall P (strip s).
Proof.
  intros H. unfold strip. apply Forall_rev, lstrip_Forall, Forall_rev, lstrip_Forall, H.
Qed.

Lemma strip_snoc_space X c :
  is_stripped X = true -> X <> [] -> is_space c = true -> strip (X ++ [c]) = X.
Proof.
  intros HX Hne Hc. unfold is_stripped in HX.
  destruct X as [|x r]; [congruence|]. simpl in HX.
  apply andb_true_iff in HX as [H1 H2]. unfold strip.
  rewrite (lstrip_ns ((x :: r) ++ [c])) by exact H1.
  rewrite rev_app_distr. simpl. rewrite Hc.
  rewrite (lstrip_ns _ H2). rewrite rev_app_distr. simpl.
  now rewrite rev_involutive.
Qed.

Lemma join_cons {A} (sep x : list A) r :
  r <> [] -> join sep (x :: r) = x ++ sep ++ join sep r.
Proof. destruct r; [congruence | reflexivity]. Qed.

Lemma join_snoc {A} (sep : list A) T y :
  T <> [] -> join sep (T ++ [y]) = join sep T ++ sep ++ y.
Proof.
  intros Hne. induction T as [|x r IH]; [congruence|].
  destruct r as [|x' r'].
  - reflexivity.
  - rewrite <- app_comm_cons, join_cons by (destruct r'; discriminate).
    rewrite IH by discriminate. rewrite (join_cons sep x (x' :: r')) by discriminate.
    now rewrite !app_assoc.
Qed.

(** Reading [split("\n")] back over a line free of boundaries. *)
Lemma split_nl_aux_line x rest cur :
  no_break x -> split_nl_aux (x ++ rest) cur = split_nl_aux rest (rev x ++ cur).
Proof.
  revert cur. induction x as [|c r IH]; intros cur H; [reflexivity|].
  inversion H as [|? ? Hc Hr]; subst. simpl.
  assert (E : (c =? 10)%N = false).
  { apply N.eqb_neq. intros ->. discriminate. }
  rewrite E, IH by exact Hr. now rewrite <- app_assoc.
Qed.

Lemma split_nl_join T : T <> [] -> Forall no_break T -> split_nl (join nl T) = T.
Proof.
  induction T as [|x r IH]; intros Hne HF; [congruence|].
  inversion HF as [|? ? Hx Hr]; subst. unfold split_nl.
  destruct r as [|y r'].
  - simpl. rewrite <- (app_nil_r x) at 1.
    rewrite split_nl_aux_line by exact Hx. simpl. now rewrite app_nil_r, rev_involutive.
  - rewrite join_cons by discriminate. rewrite split_nl_aux_line by exact Hx.
    simpl. rewrite app_nil_r, rev_involutive. f_equal. apply IH; [discriminate | exact Hr].
Qed.

(** The same for [splitlines]. *)
Lemma splitlines_aux_line x rest cur :
  no_break x -> splitlines_aux (x ++ rest) cur = splitlines_aux rest (rev x ++ cur).
Proof.
  revert cur. induction x as [|c r IH]; intros cur H; [reflexivity|].
  inversion H as [|? ? Hc Hr]; subst. simpl.
  assert (E : (c =? 13)%N = false).
  { apply N.eqb_neq. intros ->. discriminate. }
  rewrite E, Hc, IH by exact Hr. now rewrite <- app_assoc.
Qed.

Lemma splitlines_join T y :
  Forall no_break (T ++ [y]) -> y <> [] -> splitlines (join nl (T ++ [y])) = T ++ [y].
Proof.
  intros HF Hy. induction T as [|x r IH].
  - simpl. unfold splitlines. rewrite <- (app_nil_r y) at 1.
    inversion HF; subst. rewrite splitlines_aux_line by assumption.
    simpl. rewrite app_nil_r. destruct (rev y) eqn:E.
    + apply (f_equal (@rev N)) in E. rewrite rev_involutive in E. simpl in E. congruence.
    + rewrite <- E, rev_involutive. reflexivity.
  - inversion HF as [|? ? Hx Hr]; subst. rewrite <- app_comm_cons.
    rewrite join_cons by (destruct r; discriminate). unfold splitlines.
    rewrite splitlines_aux_line by exact Hx. simpl.
    rewrite app_nil_r, rev_involutive. f_equal. apply IH, Hr.
Qed.

Lemma splitlines_no_break s : Forall no_break (splitlines s).
Proof.
  unfold splitlines.
  assert (G : forall n s cur, length s <= n -> no_break cur ->
                             Forall no_break (splitlines_aux s cur)).
  { induction n as [|n IH]; intros s0 cur Hlen Hcur.
    - destruct s0; [|simpl in Hlen; lia].
      simpl. destruct cur; constructor; [apply Forall_rev; exact Hcur | constructor].
    - destruct s0 as [|c r]; simpl.
      + destruct cur; constructor; [apply Forall_rev; exact Hcur | constructor].
      + simpl in Hlen.
        assert (Hrc : no_break (rev cur)) by (apply Forall_rev; exact Hcur).
        destruct (c =? 13)%N.
        * destruct r as [|d r'].
          -- constructor; [exact Hrc | apply IH; [simpl; lia | constructor]].
          -- destruct (d =? 10)%N.
             ++ constructor; [exact Hrc | apply IH; [simpl in *; lia | constructor]].
             ++ constructor; [exact Hrc | apply IH; [simpl in *; lia | constructor]].
        * destruct (is_linebreak c) eqn:Ec.
          -- constructor; [exact Hrc | apply IH; [lia | constructor]].
          -- apply IH; [lia | constructor; assumption]. }
  apply (G (length s)); [lia | constructor].
Qed.

End TextFacts.

(* ================================================================= *)
(** ** The blank-collapsing loop *)

Module CleanFacts.
Import TextFacts.

(** [ok started pb L]: [L] is what the loop could still append to an
    accumulator that is non-empty ([started]) and ends in a blank ([pb]):
    a blank only after a non-blank, every other line already stripped. *)
Fixpoint ok (started pb : bool) (L : list pystr) : bool :=
  match L with
  | [] => true
  | x :: r => (if is_nil x then started && negb pb else is_stripped x)
              && ok true (is_nil x) r
  end.

(** Whether the accumulator ends in a blank after [A]. *)
Fixpoint pb_after (p : bool) (A : list pystr) : bool :=
  match A with [] => p | x :: r => pb_after (is_nil x) r end.

Lemma ok_app s p A B :
  ok s p (A ++ B) = ok s p A && ok (s || negb (is_nil A)) (pb_after p A) B.
Proof.
  revert s p. induction A as [|x r IH]; intros s p; simpl.
  - now rewrite orb_false_r.
  - rewrite IH, orb_true_r. now rewrite andb_assoc.
Qed.

Lemma pb_after_app p A B : pb_after p (A ++ B) = pb_after (pb_after p A) B.
Proof. revert p. induction A; simpl; auto. Qed.

Lemma is_nil_snoc {A} (l : list A) x : is_nil (l ++ [x]) = false.
Proof. destruct l; reflexivity. Qed.

(** Loop invariant of [clean_text_preserving_gaps]. *)
Definition loop_inv (st : clean_state) : Prop :=
  ok false false (cleaned st) = true /\
  (is_nil (cleaned st) = false -> previous_blank st = pb_after false (cleaned st)).

Lemma clean_step_inv st line : loop_inv st -> loop_inv (clean_step st line).
Proof.
  destruct st as [C p]. unfold loop_inv, clean_step. simpl. intros [Hok Hpb].
  destruct (is_nil (strip line)) eqn:Es.
  - destruct (is_nil C) eqn:EC; simpl.
    + split; [exact Hok | intros E; congruence].
    + destruct p; simpl.
      * split; [exact Hok | intros _; apply Hpb; reflexivity].
      * rewrite ok_app, Hok, EC, <- Hpb by reflexivity. simpl.
        split; [reflexivity|]. intros _. now rewrite pb_after_app, <- Hpb.
  - simpl. rewrite ok_app, Hok. simpl. rewrite Es, strip_stripped. simpl.
    split; [reflexivity|]. intros _. now rewrite pb_after_app.
Qed.

Lemma fold_inv L st : loop_inv st -> loop_inv (fold_left clean_step L st).
Proof.
  revert st. induction L as [|x r IH]; intros st H; simpl; [exact H|].
  apply IH, clean_step_inv, H.
Qed.

Lemma clean_lines_ok ls : ok false false (clean_lines ls) = true.
Proof.
  unfold clean_lines. apply fold_inv. split; [reflexivity | discriminate].
Qed.

Lemma clean_lines_Forall (P : pystr -> Prop) ls :
  (forall s, P s -> P (strip s)) -> P [] -> Forall P ls -> Forall P (clean_lines ls).
Proof.
  intros Hs H0 HF. unfold clean_lines.
  assert (G : forall L st, Forall P (cleaned st) -> Forall P L ->
                           Forall P (cleaned (fold_left clean_step L st))).
  { induction L as [|x r IH]; intros st Hst HL; simpl; [exact Hst|].
    inversion HL as [|? ? Hx Hr]; subst. apply IH; [|exact Hr].
    unfold clean_step. destruct (is_nil (strip x)); [destruct (_ && _)|]; simpl;
      try apply Forall_app; auto. }
  apply G; [constructor | exact HF].
Qed.

(** On an input the loop could have produced, it only copies. *)
Lemma clean_fold_id L C p :
  ok (negb (is_nil C)) p L = true ->
  cleaned (fold_left clean_step L {| cleaned := C; previous_blank := p |}) = C ++ L.
Proof.
  revert C p. induction L as [|x r IH]; intros C p H; simpl.
  - now rewrite app_nil_r.
  - apply andb_true_iff in H as [Hx Hr]. unfold clean_step at 2. simpl.
    destruct x as [|c x'] eqn:Ex; simpl in Hx |- *.
    + apply andb_true_iff in Hx as [HC Hp]. rewrite HC, Hp. simpl.
      rewrite IH; [now rewrite <- app_assoc|]. now rewrite is_nil_snoc.
    + rewrite <- Ex in *. rewrite stripped_strip by exact Hx. rewrite Ex. simpl.
      rewrite IH; [now rewrite <- app_assoc|]. rewrite is_nil_snoc. rewrite Ex in Hr. exact Hr.
Qed.

Lemma clean_lines_id L : ok false false L = true -> clean_lines L = L.
Proof. intros H. unfold clean_lines. rewrite clean_fold_id; [reflexivity | exact H]. Qed.

Lemma ok_stripped s p L : ok s p L = true -> Forall (fun x => is_stripped x = true) L.
Proof.
  revert s p. induction L as [|x r IH]; intros s p H; simpl in H; constructor.
  - apply andb_true_iff in H as [H _]. destruct x; [reflexivity | exact H].
  - apply andb_true_iff in H as [_ H]. eapply IH, H.
Qed.

(** The lines left after the final [strip]: non-empty, no leading blank,
    no blank pair, a non-blank last line, no line boundary inside. *)
Definition normal_lines (T : list pystr) : Prop :=
  T <> [] /\ ok false false T = true /\ pb_after false T = false /\ Forall no_break T.

Lemma ok_shape C :
  ok false false C = true ->
  C = [] \/ exists T, (C = T \/ C = T ++ [[]]) /\ T <> [] /\
                      ok false false T = true /\ pb_after false T = false.
Proof.
  induction C as [|x C' _] using rev_ind; intros H; [now left|]. right.
  rewrite ok_app in H. apply andb_true_iff in H as [H1 H2]. simpl in H2.
  rewrite andb_true_r in H2. destruct (is_nil x) eqn:Ex.
  - destruct x; [|discriminate]. apply andb_true_iff in H2 as [HC Hp].
    exists C'. split; [now right|]. split; [destruct C'; discriminate|].
    split; [exact H1|]. now apply negb_true_iff in Hp.
  - exists (C' ++ [x]). split; [now left|].
    split; [destruct C'; discriminate|]. rewrite ok_app, H1. simpl.
    rewrite Ex, H2, pb_after_app. simpl. now rewrite Ex.
Qed.

Lemma join_starts x r :
  is_stripped x = true -> x <> [] -> starts_ns (join nl (x :: r)) = true.
Proof.
  intros Hx Hne. destruct x as [|c x']; [congruence|].
  unfold is_stripped in Hx. simpl in Hx. apply andb_true_iff in Hx as [Hx _].
  destruct r; [exact Hx|]. rewrite join_cons by discriminate.
  apply starts_ns_app, Hx.
Qed.

Lemma join_ends T y :
  is_stripped y = true -> y <> [] -> starts_ns (rev (join nl (T ++ [y]))) = true.
Proof.
  intros Hy Hne. destruct y as [|c y']; [congruence|].
  unfold is_stripped in Hy. simpl in Hy. apply andb_true_iff in Hy as [_ Hy].
  destruct T as [|x r].
  - exact Hy.
  - rewrite join_snoc by discriminate. rewrite !rev_app_distr.
    apply starts_ns_app, starts_ns_app, Hy.
Qed.

Lemma pb_after_snoc p T y : pb_after p (T ++ [y]) = is_nil y.
Proof. now rewrite pb_after_app. Qed.

Lemma join_stripped T :
  T <> [] -> ok false false T = true -> pb_after false T = false ->
  is_stripped (join nl T) = true /\ join nl T <> [].
Proof.
  intros Hne Hok Hpb.
  pose proof (ok_stripped _ _ _ Hok) as Hst.
  destruct T as [|x r]; [congruence|].
  assert (Hx : x <> []) by (intros ->; discriminate).
  assert (Hs : starts_ns (join nl (x :: r)) = true).
  { apply join_starts; [inversion Hst; assumption | exact Hx]. }
  destruct (exists_last Hne) as [T' [y Ey]]. rewrite Ey in Hpb, Hst.
  rewrite pb_after_snoc in Hpb.
  assert (Hy : y <> []) by (intros ->; discriminate).
  apply Forall_app in Hst as [_ Hst]. inversion Hst as [|? ? Hys _]; subst.
  assert (He : starts_ns (rev (join nl (x :: r))) = true).
  { rewrite Ey. apply join_ends; assumption. }
  split.
  - unfold is_stripped. rewrite Hs, He. apply orb_true_r.
  - intros E. rewrite E in Hs. discriminate.
Qed.

(** What [clean_raw_text] returns: the empty text, or normal lines joined by
    newlines. *)
Lemma clean_raw_text_form raw :
  clean_raw_text raw = [] \/
  exists T, normal_lines T /\ clean_raw_text raw = join nl T.
Proof.
  unfold clean_raw_text.
  pose proof (clean_lines_ok (splitlines raw)) as Hok.
  assert (HF : Forall no_break (clean_lines (splitlines raw))).
  { apply clean_lines_Forall; [intros s; apply strip_Forall | constructor |].
    apply splitlines_no_break. }
  destruct (ok_shape _ Hok) as [E | [T [[E|E] [Hne [HT Hpb]]]]];
    rewrite E in HF |- *.
  - now left.
  - right. exists T. split; [repeat split; assumption|].
    apply stripped_strip, (join_stripped T Hne HT Hpb).
  - right. exists T. apply Forall_app in HF as [HF _].
    split; [repeat split; assumption|].
    destruct (join_stripped T Hne HT Hpb) as [Hs Hn].
    rewrite join_snoc by exact Hne. simpl.
    apply strip_snoc_space; [exact Hs | exact Hn | reflexivity].
Qed.

Lemma last_blank p T : last T = Some [] -> pb_after p T = true.
Proof.
  revert p. induction T as [|x r IH]; intros p H; [discriminate|].
  destruct r as [|y r'].
  - simpl in H. injection H as ->. reflexivity.
  - change (pb_after (is_nil x) (y :: r') = true). apply IH, H.
Qed.

Lemma ok_no_pair s p L i :
  ok s p L = true -> L !! i = Some [] -> L !! S i = Some [] -> False.
Proof.
  revert s p i. induction L as [|x r IH]; intros s p i H Hi Hsi; [discriminate|].
  simpl in H. apply andb_true_iff in H as [_ H].
  destruct i as [|i]; cbn in Hi, Hsi.
  - injection Hi as ->. destruct r as [|y r']; [discriminate|].
    simpl in Hsi. injection Hsi as ->. simpl in H. discriminate.
  - exact (IH _ _ i H Hi Hsi).
Qed.

Lemma normal_lines_edges T :
  normal_lines T -> hd_error T <> Some [] /\ last T <> Some [].
Proof.
  intros [Hne [Hok [Hpb _]]]. split.
  - destruct T as [|x r]; [congruence|]. simpl. intros [= ->]. discriminate.
  - intros Hl. apply (last_blank false) in Hl. congruence.
Qed.

Lemma splitlines_normal T : normal_lines T -> splitlines (join nl T) = T.
Proof.
  intros [Hne [Hok [Hpb HF]]].
  destruct (exists_last Hne) as [T' [y Ey]]. subst T.
  rewrite pb_after_snoc in Hpb.
  apply splitlines_join; [exact HF | intros ->; discriminate].
Qed.

Lemma split_nl_join_prefix T rest :
  T <> [] -> Forall no_break T ->
  split_nl_aux (join nl T ++ 10%N :: rest) [] = T ++ split_nl_aux rest [].
Proof.
  induction T as [|x r IH]; intros Hne HF; [congruence|].
  inversion HF as [|? ? Hx Hr]; subst. destruct r as [|y r'].
  - simpl. rewrite split_nl_aux_line by exact Hx. simpl.
    now rewrite app_nil_r, rev_involutive.
  - rewrite join_cons by discriminate. rewrite <- app_assoc.
    rewrite split_nl_aux_line by exact Hx. simpl.
    rewrite app_nil_r, rev_involutive. f_equal. apply IH; [discriminate | exact Hr].
Qed.

(** The lines of blocks joined by an empty line. *)
Lemma split_nl_blocks blocks :
  blocks <> [] ->
  Forall (fun t => exists T, normal_lines T /\ t = join nl T) blocks ->
  split_nl (join (nl ++ nl) blocks) = join [[]] (map splitlines blocks).
Proof.
  induction blocks as [|t r IH]; intros Hne HF; [congruence|].
  inversion HF as [|? ? [T [HT ->]] Hr]; subst.
  destruct r as [|t' r'].
  - simpl. rewrite splitlines_normal by exact HT.
    destruct HT as [? [? [? ?]]]. apply split_nl_join; assumption.
  - rewrite join_cons by discriminate.
    change (map splitlines (join nl T :: t' :: r'))
      with (splitlines (join nl T) :: map splitlines (t' :: r')).
    rewrite (join_cons [[]] _ (map splitlines (t' :: r'))) by discriminate.
    rewrite <- IH by (discriminate || exact Hr).
    rewrite splitlines_normal by exact HT.
    unfold split_nl. simpl app at 2.
    destruct HT as [HTne [_ [_ HTF]]].
    rewrite split_nl_join_prefix by assumption. reflexivity.
Qed.

End CleanFacts.

(* ================================================================= *)
(** ** Claims about the normalizer *)

Import TextFacts CleanFacts.

(** C2: the text returned by [clean_text_preserving_gaps], read back as its
    lines ([split("\n")]), is empty or neither starts nor ends with an empty
    line, never has two consecutive empty lines, and each of its lines is
    stripped, so a blank output line is an empty one. *)
Theorem clean_text_no_blank_edges_or_pairs (soup : document) :
  let out := clean_text_preserving_gaps soup in
  out = [] \/
  (let L := split_nl out in
   hd_error L <> Some [] /\ last L <> Some [] /\
   (forall i, L !! i = Some [] -> L !! S i <> Some []) /\
   Forall (fun l => strip l = l) L).
Proof.
  unfold clean_text_preserving_gaps. simpl.
  destruct (clean_raw_text_form (get_text nl (mark_spacers soup)))
    as [E | [T [HT E]]]; rewrite E; [now left | right].
  destruct (normal_lines_edges T HT) as [Hhd Hlast].
  destruct HT as [Hne [Hok [Hpb HF]]].
  rewrite split_nl_join by assumption.
  split; [exact Hhd | split; [exact Hlast | split]].
  - intros i Hi Hsi. exact (ok_no_pair _ _ _ i Hok Hi Hsi).
  - eapply Forall_impl; [eapply ok_stripped, Hok|]. intros x Hx.
    apply stripped_strip, Hx.
Qed.

(** C3: the blank-collapsing loop is idempotent on any line sequence, and so
    is the whole normalization of a raw text (split, collapse, join,
    strip). *)
Theorem clean_idempotent (ls : list pystr) (raw : pystr) :
  clean_lines (clean_lines ls) = clean_lines ls /\
  clean_raw_text (clean_raw_text raw) = clean_raw_text raw.
Proof.
  split; [apply clean_lines_id, clean_lines_ok|].
  destruct (clean_raw_text_form raw) as [E | [T [[Hne [Hok [Hpb HF]]] E]]];
    rewrite E; [reflexivity|].
  unfold clean_raw_text.
  destruct (exists_last Hne) as [T' [y Ey]].
  assert (Hy : y <> []).
  { intros ->. rewrite Ey, pb_after_snoc in Hpb. discriminate. }
  rewrite Ey. rewrite splitlines_join; [| rewrite <- Ey; exact HF | exact Hy].
  rewrite <- Ey.
  rewrite clean_lines_id by exact Hok.
  apply stripped_strip, (join_stripped T Hne Hok Hpb).
Qed.

(** C5: on <p>Hello</p><div class="empty-line"></div><p>World</p> the
    normalizer returns "Hello\n\nWorld". *)
Theorem clean_text_hello_world :
  clean_text_preserving_gaps
    [Elem "p" [] [Text (py "Hello")]; Elem "div" ["empty-line"] [];
     Elem "p" [] [Text (py "World")]]
  = py "Hello" ++ nl ++ nl ++ py "World".
Proof. reflexivity. Qed.

(* ================================================================= *)
(** ** The spine resolver *)

(** The items the declared spine refers to that resolve to documents, in
    spine order (one per such entry). *)
Definition declared_docs (b : book) (sp : list spine_entry) : list item :=
  flat_map (fun e => match get_item_with_id b (entry_id e) with
                     | Some it => if N.eqb (item_type it) ITEM_DOCUMENT then [it] else []
                     | None => []
                     end) sp.

(** Whether the spine mentions [x]. *)
Definition in_spine (sp : list spine_entry) (x : string) : bool :=
  existsb (String.eqb x) (map entry_id sp).

Module SpineFacts.

Lemma spine_pass_items b1 b2 sp seen :
  items b1 = items b2 -> spine_pass b1 sp seen = spine_pass b2 sp seen.
Proof.
  intros Hi. revert seen. induction sp as [|e r IH]; intros seen; simpl; [reflexivity|].
  unfold get_item_with_id. rewrite Hi. fold (get_item_with_id b2 (entry_id e)).
  destruct (get_item_with_id b2 (entry_id e)) as [it|]; [|apply IH].
  destruct (item_type it =? ITEM_DOCUMENT)%N; [|apply IH]. now rewrite IH.
Qed.

(** The spine loop only looks at the ids of the entries. *)
Lemma spine_pass_ids b sp1 sp2 seen :
  map entry_id sp1 = map entry_id sp2 -> spine_pass b sp1 seen = spine_pass b sp2 seen.
Proof.
  revert sp2 seen. induction sp1 as [|e1 r1 IH]; intros [|e2 r2] seen H;
    simpl in H; try discriminate; [reflexivity|].
  injection H as He Hr. simpl. rewrite He.
  destruct (get_item_with_id b (entry_id e2)) as [it|]; [|apply IH, Hr].
  destruct (item_type it =? ITEM_DOCUMENT)%N; [|apply IH, Hr]. now rewrite (IH r2).
Qed.

Lemma spine_pass_app b s1 s2 seen :
  spine_pass b (s1 ++ s2) seen =
  let '(o1, seen1) := spine_pass b s1 seen in
  let '(o2, seen2) := spine_pass b s2 seen1 in (o1 ++ o2, seen2).
Proof.
  revert seen. induction s1 as [|e r IH]; intros seen; simpl.
  - destruct (spine_pass b s2 seen); reflexivity.
  - destruct (get_item_with_id b (entry_id e)) as [it|]; [|apply IH].
    destruct (item_type it =? ITEM_DOCUMENT)%N; [|apply IH].
    rewrite IH. destruct (spine_pass b r _) as [o1 seen1].
    destruct (spine_pass b s2 seen1). reflexivity.
Qed.

Lemma spine_pass_fst b sp seen : fst (spine_pass b sp seen) = declared_docs b sp.
Proof.
  revert seen. induction sp as [|e r IH]; intros seen; simpl; [reflexivity|].
  destruct (get_item_with_id b (entry_id e)) as [it|]; [|apply IH].
  destruct (item_type it =? ITEM_DOCUMENT)%N; [|apply IH].
  specialize (IH ({[entry_id e]} ∪ seen)).
  destruct (spine_pass b r _). simpl in *. now rewrite IH.
Qed.

Lemma spine_pass_seen b sp seen x :
  x ∈ snd (spine_pass b sp seen) <->
  x ∈ seen \/ exists e it, In e sp /\ entry_id e = x /\
                           get_item_with_id b x = Some it /\ item_type it = ITEM_DOCUMENT.
Proof.
  revert seen. induction sp as [|e r IH]; intros seen; simpl.
  - split; [now left | intros [H | (? & ? & [] & _)]; exact H].
  - destruct (get_item_with_id b (entry_id e)) as [it|] eqn:Eg.
    + destruct (item_type it =? ITEM_DOCUMENT)%N eqn:Et.
      * specialize (IH ({[entry_id e]} ∪ seen)).
        destruct (spine_pass b r _) as [o s'] eqn:Ep. simpl in *. rewrite IH.
        apply N.eqb_eq in Et. split.
        -- intros [H | (e' & it' & Hin & Hid & Hg & Ht)].
           ++ apply elem_of_union in H as [H | H]; [|now left].
              apply elem_of_singleton in H. subst x. right. exists e, it. auto.
           ++ right. exists e', it'. auto.
        -- intros [H | (e' & it' & [Hin | Hin] & Hid & Hg & Ht)].
           ++ left. set_solver.
           ++ subst e'. left. set_solver.
           ++ right. exists e', it'. auto.
      * rewrite IH. split.
        -- intros [H | (e' & it' & Hin & Hid & Hg & Ht)]; [now left|].
           right. exists e', it'. auto.
        -- intros [H | (e' & it' & [Hin | Hin] & Hid & Hg & Ht)]; [now left | | ].
           ++ subst e' x. rewrite Eg in Hg. injection Hg as ->.
              apply N.eqb_neq in Et. congruence.
           ++ right. exists e', it'. auto.
    + rewrite IH. split.
      * intros [H | (e' & it' & Hin & Hid & Hg & Ht)]; [now left|].
        right. exists e', it'. auto.
      * intros [H | (e' & it' & [Hin | Hin] & Hid & Hg & Ht)]; [now left | | ].
        -- subst e' x. congruence.
        -- right. exists e', it'. auto.
Qed.

(** With unique ids, looking an item's own id up finds that item. *)
Lemma get_item_own_id b it :
  NoDup (map item_id (items b)) -> In it (items b) -> get_item_with_id b (item_id it) = Some it.
Proof.
  unfold get_item_with_id. induction (items b) as [|a l IH]; intros Hnd Hin; [destruct Hin|].
  simpl. inversion Hnd as [|? ? Hnotin Hnd']; subst.
  destruct Hin as [-> | Hin].
  - now rewrite String.eqb_refl.
  - destruct (String.eqb (item_id a) (item_id it)) eqn:E.
    + apply String.eqb_eq in E. exfalso. apply Hnotin. rewrite E.
      apply list_elem_of_In. now apply in_map.
    + apply IH; assumption.
Qed.

Lemma spine_pass_skip b e s seen :
  (get_item_with_id b (entry_id e) = None \/
   exists it, get_item_with_id b (entry_id e) = Some it /\ item_type it <> ITEM_DOCUMENT) ->
  spine_pass b (e :: s) seen = spine_pass b s seen.
Proof.
  intros [H | (it & H & Ht)]; simpl; rewrite H; [reflexivity|].
  apply N.eqb_neq in Ht. now rewrite Ht.
Qed.

End SpineFacts.

(* ================================================================= *)
(** ** Claims about the spine resolver *)

Import SpineFacts.

Definition doc_item (id : string) : item :=
  {| item_id := id; item_type := ITEM_DOCUMENT; item_content := [] |}.

(** A package whose spine lists the document "A" twice, as read_epub builds
    it from two [<itemref idref="A"/>] elements. *)
Definition dup_spine_book : book :=
  {| spine := [STuple "A" ["yes"]; STuple "A" ["yes"]]; items := [doc_item "A"] |}.

(** C1 (code_bug): the spine loop does not consult [seen_ids], so a
    document referenced twice by the spine is yielded twice. *)
Theorem spine_duplicate_yielded_twice :
  iter_documents_in_order dup_spine_book = [doc_item "A"; doc_item "A"].
Proof. vm_compute. reflexivity. Qed.

(** The package of the spec's example: spine [A, B], and a document C
    outside the spine (listed first in the manifest) next to a stylesheet. *)
Definition abc_book : book :=
  {| spine := [STuple "A" ["yes"]; STuple "B" ["yes"]];
     items := [doc_item "C"; doc_item "A";
               {| item_id := "css"; item_type := 2; item_content := [] |};
               doc_item "B"] |}.

(** C4: with unique item ids, the resolver yields the documents the spine
    refers to, in spine order, followed by the documents the spine does not
    mention, in manifest order; spine [A, B] with an extra C gives
    [A, B, C]. *)
Theorem iter_documents_order (b : book) (Hids : NoDup (map item_id (items b))) :
  iter_documents_in_order b =
    declared_docs b (spine b) ++
    List.filter (fun it => negb (in_spine (spine b) (item_id it)))
                (get_items_of_type b ITEM_DOCUMENT)
  /\ iter_documents_in_order abc_book = [doc_item "A"; doc_item "B"; doc_item "C"].
Proof.
  split; [|vm_compute; reflexivity].
  unfold iter_documents_in_order.
  pose proof (spine_pass_fst b (spine b) ∅) as Hf.
  pose proof (fun x => spine_pass_seen b (spine b) ∅ x) as Hs.
  destruct (spine_pass b (spine b) ∅) as [out seen]. simpl in Hf, Hs. subst out.
  f_equal. apply filter_ext_in. intros it Hin.
  unfold get_items_of_type in Hin. apply filter_In in Hin as [Hin Ht].
  apply N.eqb_eq in Ht. f_equal.
  destruct (in_spine (spine b) (item_id it)) eqn:Es.
  - apply bool_decide_eq_true_2. apply Hs. right.
    unfold in_spine in Es. apply existsb_exists in Es as [x [Hx Heq]].
    apply String.eqb_eq in Heq. subst x.
    apply in_map_iff in Hx as [e [He Hine]].
    exists e, it. repeat split; try assumption. now apply get_item_own_id.
  - apply bool_decide_eq_false_2. intros Hm. apply Hs in Hm.
    destruct Hm as [Hm | (e & it' & Hine & Hid & _)]; [set_solver|].
    unfold in_spine in Es. rewrite <- Hid in Es.
    assert (existsb (String.eqb (entry_id e)) (map entry_id (spine b)) = true) as Ht'.
    { apply existsb_exists. exists (entry_id e). split.
      - now apply in_map.
      - apply String.eqb_refl. }
    congruence.
Qed.

(** C7: a spine entry whose id is missing from the manifest, or names an
    item that is not a document, is skipped: the resolver yields the same
    items as for the spine without that entry; no error is possible. *)
Theorem spine_skips_unresolved (b : book) (s1 s2 : list spine_entry) (e : spine_entry)
  (Hsp : spine b = s1 ++ e :: s2)
  (Hskip : get_item_with_id b (entry_id e) = None \/
           exists it, get_item_with_id b (entry_id e) = Some it /\
                      item_type it <> ITEM_DOCUMENT) :
  iter_documents_in_order b =
  iter_documents_in_order {| spine := s1 ++ s2; items := items b |}.
Proof.
  unfold iter_documents_in_order. simpl spine. rewrite Hsp.
  rewrite (spine_pass_items {| spine := s1 ++ s2; items := items b |} b) by reflexivity.
  rewrite !spine_pass_app.
  destruct (spine_pass b s1 ∅) as [o1 seen1].
  rewrite (spine_pass_skip b e s2 seen1 Hskip). reflexivity.
Qed.

(** C8: a bare id and a tuple whose first element is that id are the same
    spine entry for the resolver, wherever they stand in the spine. *)
Theorem spine_entry_shapes (b : book) (s1 s2 : list spine_entry)
        (x : string) (rest : list string) :
  entry_id (SBare x) = x /\ entry_id (STuple x rest) = x /\
  iter_documents_in_order {| spine := s1 ++ SBare x :: s2; items := items b |} =
  iter_documents_in_order {| spine := s1 ++ STuple x rest :: s2; items := items b |}.
Proof.
  split; [reflexivity | split; [reflexivity|]].
  unfold iter_documents_in_order. simpl spine.
  rewrite (spine_pass_items {| spine := s1 ++ SBare x :: s2; items := items b |} b),
    (spine_pass_items {| spine := s1 ++ STuple x rest :: s2; items := items b |} b)
    by reflexivity.
  rewrite (spine_pass_ids _ (s1 ++ SBare x :: s2) (s1 ++ STuple x rest :: s2))
    by (rewrite !map_app; reflexivity).
  reflexivity.
Qed.

(* ================================================================= *)
(** ** Claims about the conversion *)

Definition text_doc (id : string) (content : document) : item :=
  {| item_id := id; item_type := ITEM_DOCUMENT; item_content := content |}.

(** Three documents, the middle one without any text. *)
Definition gap_book : book :=
  {| spine := [STuple "x" ["yes"]; STuple "y" ["yes"]; STuple "z" ["yes"]];
     items := [text_doc "x" [Elem "p" [] [Text (py "A")]];
               text_doc "y" [Elem "p" [] []];
               text_doc "z" [Elem "p" [] [Text (py "B")]]] |}.

Definition blocks_of (b : book) : list pystr :=
  map (fun it => clean_text_preserving_gaps (item_content it)) (iter_documents_in_order b).

(** C6, counterexample: a document without text gives an empty block, and
    the written text has three empty lines between "A" and "B", not the
    lines of the blocks separated by one empty line. *)
Lemma epub_to_txt_empty_block_cex :
  split_nl (epub_to_txt gap_book) = [py "A"; []; []; []; py "B"] /\
  split_nl (epub_to_txt gap_book) <> join [[]] (map splitlines (blocks_of gap_book)).
Proof. vm_compute. split; [reflexivity | discriminate]. Qed.

(** C6, as amended: the written text is the normalized blocks, one per
    resolved item in resolved order, joined by "\n\n"; when there are blocks
    and none is empty, its lines are the lines of the blocks with exactly one
    empty line between consecutive blocks, and no block starts or ends with
    an empty line. *)
Theorem epub_to_txt_blocks (b : book) :
  epub_to_txt b = join (nl ++ nl) (blocks_of b) /\
  (blocks_of b <> [] -> Forall (fun t => t <> []) (blocks_of b) ->
   split_nl (epub_to_txt b) = join [[]] (map splitlines (blocks_of b)) /\
   Forall (fun t => hd_error (splitlines t) <> Some [] /\
                    last (splitlines t) <> Some []) (blocks_of b)).
Proof.
  split; [reflexivity|]. intros Hne Hall.
  assert (HF : Forall (fun t => exists T, normal_lines T /\ t = join nl T) (blocks_of b)).
  { apply Forall_forall. intros t Ht. rewrite Forall_forall in Hall.
    specialize (Hall t Ht). unfold blocks_of in Ht.
    apply list_elem_of_In, in_map_iff in Ht as [it [<- _]].
    unfold clean_text_preserving_gaps in *.
    destruct (clean_raw_text_form (get_text nl (mark_spacers (item_content it))))
      as [E | HT]; [congruence | exact HT]. }
  split.
  - apply split_nl_blocks; assumption.
  - eapply Forall_impl; [exact HF|]. intros t [T [HT ->]].
    rewrite splitlines_normal by exact HT. apply normal_lines_edges, HT.
Qed.

(* ================================================================= *)
(** ** Claims about batch mode *)

Module BatchFacts.

#[global] Instance name_le_total : Total name_le.
Proof. intros s1 s2. unfold name_le. apply String.leb_total. Qed.

Lemma convert_directory_shape listing :
  let fs := merge_sort name_le (map fst (List.filter is_epub_entry listing)) in
  convert_directory true listing =
  if is_nil fs then ReportedNoFiles
  else Converted (map (fun f => (f, (stem f ++ ".txt")%string)) fs).
Proof. unfold convert_directory. simpl. destruct (merge_sort _ _); reflexivity. Qed.

(** After the writes, a target holds what the last job writing it wrote. *)
Lemma run_jobs_lookup conv jobs (out0 : gmap string pystr) k :
  run_jobs conv jobs out0 !! k =
  match last (List.filter (fun j => String.eqb (snd j) k) jobs) with
  | Some j => Some (conv (fst j))
  | None => out0 !! k
  end.
Proof.
  unfold run_jobs. revert out0. induction jobs as [|[src dst] r IH]; intros out0; simpl.
  - reflexivity.
  - rewrite IH. destruct (String.eqb dst k) eqn:E.
    + apply String.eqb_eq in E. subst dst.
      destruct (List.filter _ r) as [|j l]; simpl.
      * apply lookup_insert_eq.
      * destruct (last (j :: l)) eqn:El; [reflexivity|]. exfalso.
        clear - El. revert j El. induction l as [|a l IHl]; intros j El;
          [discriminate | exact (IHl a El)].
    + apply String.eqb_neq in E.
      destruct (last (List.filter _ r)); [reflexivity|].
      now apply lookup_insert_ne.
Qed.

End BatchFacts.

Import BatchFacts.

(** C9, counterexample: a directory entry named "d.epub" has the .epub
    extension but is not selected, since it is not a regular file. *)
Lemma convert_directory_skips_dirs_cex :
  lower (suffix "d.epub") = ".epub"%string /\
  convert_directory true [("d.epub", Directory); ("a.epub", RegularFile)]
  = Converted [("a.epub", "a.txt")]%string.
Proof. split; vm_compute; reflexivity. Qed.

(** C9, as amended: batch mode selects exactly the listed regular files
    whose [Path.suffix], lower-cased, is ".epub", processes them in
    lexicographic order, targets [stem + ".txt"] for each, and reports an
    empty selection instead of raising; b.epub, a.EPUB, notes.txt give the
    jobs a.EPUB -> a.txt then b.epub -> b.txt. *)
Theorem convert_directory_selection (listing : list (string * entry_kind)) :
  (exists fs,
     fs ≡ₚ map fst (List.filter is_epub_entry listing) /\ Sorted name_le fs /\
     convert_directory true listing =
       if is_nil fs then ReportedNoFiles
       else Converted (map (fun f => (f, (stem f ++ ".txt")%string)) fs)) /\
  convert_directory true [("b.epub", RegularFile); ("a.EPUB", RegularFile);
                          ("notes.txt", RegularFile)]
  = Converted [("a.EPUB", "a.txt"); ("b.epub", "b.txt")]%string /\
  convert_directory true [("notes.txt", RegularFile)] = ReportedNoFiles.
Proof.
  split; [|split; vm_compute; reflexivity].
  exists (merge_sort name_le (map fst (List.filter is_epub_entry listing))).
  split; [apply merge_sort_Permutation|].
  split; [apply Sorted_merge_sort, name_le_total|].
  apply convert_directory_shape.
Qed.

(** C10: every batch target is [stem + ".txt"], and a target holds the
    conversion of the last job in sorted order that writes it; a.epub and
    a.EPUB both target a.txt, and a.epub, sorted after a.EPUB, wins. *)
Theorem batch_last_same_stem_wins (conv : string -> pystr)
        (listing : list (string * entry_kind)) (jobs : list (string * string))
        (k : string)
        (Hrun : convert_directory true listing = Converted jobs) :
  Forall (fun j => snd j = (stem (fst j) ++ ".txt")%string) jobs /\
  run_jobs conv jobs ∅ !! k =
    match last (List.filter (fun j => String.eqb (snd j) k) jobs) with
    | Some j => Some (conv (fst j))
    | None => None
    end /\
  convert_directory true [("a.epub", RegularFile); ("a.EPUB", RegularFile)]
  = Converted [("a.EPUB", "a.txt"); ("a.epub", "a.txt")]%string /\
  run_jobs conv [("a.EPUB", "a.txt"); ("a.epub", "a.txt")]%string ∅
  = {[ "a.txt"%string := conv "a.epub"%string ]}.
Proof.
  split; [|split; [|split]].
  - rewrite convert_directory_shape in Hrun.
    destruct (is_nil _); [discriminate|]. injection Hrun as <-.
    apply Forall_forall. intros j Hj.
    apply list_elem_of_In, in_map_iff in Hj as [f [<- _]]. reflexivity.
  - rewrite run_jobs_lookup. destruct (last _); reflexivity.
  - vm_compute. reflexivity.
  - unfold run_jobs. simpl. rewrite insert_insert_eq. reflexivity.
Qed.

(** Witnesses. *)

Lemma spine_skips_unresolved_witness :
  let b := {| spine := [SBare "style"; STuple "A" ["yes"]];
              items := [{| item_id := "style"; item_type := 2; item_content := [] |};
                        doc_item "A"] |} in
  iter_documents_in_order b =
  iter_documents_in_order {| spine := [] ++ [STuple "A" ["yes"]]; items := items b |}.
Proof.
  intros b. apply (spine_skips_unresolved b [] [STuple "A" ["yes"]] (SBare "style")).
  - reflexivity.
  - right. eexists. split; [reflexivity | discriminate].
Defined.

Lemma iter_documents_order_witness :
  NoDup (map item_id (items abc_book)) /\
  iter_documents_in_order abc_book =
    declared_docs abc_book (spine abc_book) ++
    List.filter (fun it => negb (in_spine (spine abc_book) (item_id it)))
                (get_items_of_type abc_book ITEM_DOCUMENT).
Proof.
  assert (H : NoDup (map item_id (items abc_book))).
  { apply (bool_decide_unpack _). vm_compute. reflexivity. }
  split; [exact H|]. exact (proj1 (iter_documents_order abc_book H)).
Defined.

(** Two documents with text. *)
Definition ab_book : book :=
  {| spine := [STuple "x" ["yes"]; STuple "z" ["yes"]];
     items := [text_doc "x" [Elem "p" [] [Text (py "A")]];
               text_doc "z" [Elem "p" [] [Text (py "B")]]] |}.

Lemma epub_to_txt_blocks_witness :
  blocks_of ab_book <> [] /\ Forall (fun t => t <> []) (blocks_of ab_book) /\
  split_nl (epub_to_txt ab_book) = join [[]] (map splitlines (blocks_of ab_book)).
Proof.
  assert (H1 : blocks_of ab_book <> []) by (vm_compute; discriminate).
  assert (H2 : Forall (fun t => t <> []) (blocks_of ab_book))
    by (vm_compute; repeat constructor; discriminate).
  split; [exact H1 | split; [exact H2|]].
  exact (proj1 (proj2 (epub_to_txt_blocks ab_book) H1 H2)).
Defined.

Lemma batch_last_same_stem_wins_witness :
  convert_directory true [("a.epub", RegularFile); ("a.EPUB", RegularFile)]
  = Converted [("a.EPUB", "a.txt"); ("a.epub", "a.txt")]%string /\
  run_jobs py [("a.EPUB", "a.txt"); ("a.epub", "a.txt")]%string ∅ !! "a.txt"%string
  = Some (py "a.epub").
Proof.
  assert (Hrun : convert_directory true [("a.epub", RegularFile); ("a.EPUB", RegularFile)]
                 = Converted [("a.EPUB", "a.txt"); ("a.epub", "a.txt")]%string)
    by (vm_compute; reflexivity).
  split; [exact Hrun|].
  destruct (batch_last_same_stem_wins py _ _ "a.txt" Hrun) as [_ [H _]].
  rewrite H. vm_compute. reflexivity.
Defined.

(* ================================================================= *)
(** ** Further properties of the normalizer *)

Module ContentFacts.
Import TextFacts CleanFacts.

Lemma lfilter_app {A} (f : A -> bool) l1 l2 :
  List.filter f (l1 ++ l2) = List.filter f l1 ++ List.filter f l2.
Proof. induction l1 as [|x r IH]; simpl; [reflexivity|]. destruct (f x); simpl; congruence. Qed.

Lemma fold_content L st :
  List.filter nonblank (cleaned (fold_left clean_step L st)) =
  List.filter nonblank (cleaned st) ++ List.filter nonblank (map strip L).
Proof.
  revert st. induction L as [|x r IH]; intros st; simpl; [now rewrite app_nil_r|].
  rewrite IH. unfold clean_step.
  unfold nonblank in *.
  destruct (is_nil (strip x)) eqn:E; [destruct (_ && _)|]; simpl;
    rewrite ?lfilter_app; simpl; rewrite ?E; simpl;
    rewrite ?app_nil_r, <- ?app_assoc; reflexivity.
Qed.

Lemma clean_lines_content ls :
  List.filter nonblank (clean_lines ls) = List.filter nonblank (map strip ls).
Proof. unfold clean_lines. rewrite fold_content. reflexivity. Qed.

(** [splitlines] of the normalized text gives back the collapsed lines,
    minus a trailing blank. *)
Lemma clean_raw_text_lines raw :
  clean_lines (splitlines raw) = splitlines (clean_raw_text raw) \/
  clean_lines (splitlines raw) = splitlines (clean_raw_text raw) ++ [[]].
Proof.
  unfold clean_raw_text.
  pose proof (clean_lines_ok (splitlines raw)) as Hok.
  assert (HF : Forall no_break (clean_lines (splitlines raw))).
  { apply clean_lines_Forall; [intros s; apply strip_Forall | constructor |].
    apply splitlines_no_break. }
  destruct (ok_shape _ Hok) as [E | [T [[E|E] [Hne [HT Hpb]]]]];
    rewrite E in HF |- *.
  - now left.
  - left. rewrite stripped_strip by apply (join_stripped T Hne HT Hpb).
    symmetry. apply splitlines_normal. repeat split; assumption.
  - right. apply Forall_app in HF as [HF _].
    destruct (join_stripped T Hne HT Hpb) as [Hs Hn].
    rewrite join_snoc by exact Hne. simpl.
    rewrite strip_snoc_space by (assumption || reflexivity).
    rewrite splitlines_normal by (repeat split; assumption). reflexivity.
Qed.

Lemma clean_raw_text_content raw :
  List.filter nonblank (splitlines (clean_raw_text raw)) =
  List.filter nonblank (map strip (splitlines raw)).
Proof.
  rewrite <- clean_lines_content.
  destruct (clean_raw_text_lines raw) as [E|E]; rewrite E; [reflexivity|].
  rewrite lfilter_app. simpl. now rewrite app_nil_r.
Qed.

Lemma linebreak_space c : is_linebreak c = true -> is_space c = true.
Proof.
  unfold is_linebreak, is_space. intros H.
  repeat rewrite orb_true_iff in *. repeat rewrite andb_true_iff in *.
  repeat rewrite N.leb_le in *. repeat rewrite N.eqb_eq in *. lia.
Qed.

Lemma lstrip_nil_iff l : lstrip l = [] <-> all_space l.
Proof.
  unfold all_space. induction l as [|c r IH]; simpl; [split; auto|].
  destruct (is_space c) eqn:E.
  - rewrite IH. split; [intros H; constructor; assumption | intros H; inversion H; assumption].
  - split; [discriminate | intros H; inversion H; congruence].
Qed.

Lemma strip_nil_iff l : strip l = [] <-> all_space l.
Proof.
  rewrite <- lstrip_nil_iff. unfold strip. split; intros H.
  - destruct (lstrip_head l) as [E|E]; [exact E|].
    destruct (lstrip l) as [|c r]; [reflexivity|]. simpl in E.
    apply negb_true_iff in E. exfalso. simpl rev in H.
    rewrite lstrip_snoc in H by exact E. rewrite rev_app_distr in H. discriminate.
  - rewrite H. reflexivity.
Qed.

Lemma all_space_rev (l : pystr) : all_space (rev l) <-> all_space l.
Proof.
  unfold all_space. split; intros H; [|apply Forall_rev; exact H].
  apply Forall_rev in H. now rewrite rev_involutive in H.
Qed.

Lemma splitlines_aux_space n s cur : length s <= n ->
  (all_space s -> all_space cur -> Forall all_space (splitlines_aux s cur)) /\
  (Forall all_space (splitlines_aux s cur) -> all_space s /\ all_space cur).
Proof.
  revert s cur. induction n as [|n IH]; intros s0 cur Hlen.
  - destruct s0; [|simpl in Hlen; lia]. simpl. split.
    + intros _ Hc. destruct cur; constructor; [apply all_space_rev; exact Hc | constructor].
    + intros H. split; [constructor|]. destruct cur as [|c cur]; [constructor|].
      inversion H as [|? ? Hc _]. apply all_space_rev. exact Hc.
  - destruct s0 as [|c r]; [apply (IH [] cur); simpl; lia|].
    simpl in Hlen. simpl.
    assert (Hbr : forall r0 : pystr, length r0 <= n -> is_space c = true ->
      (all_space (c :: r0) -> all_space cur -> Forall all_space (rev cur :: splitlines_aux r0 [])) /\
      (Forall all_space (rev cur :: splitlines_aux r0 []) -> all_space (c :: r0) /\ all_space cur)).
    { intros r0 Hl Hc. destruct (IH r0 [] Hl) as [I1 I2]. split.
      - intros Hs Hcur. inversion Hs; subst.
        constructor; [apply all_space_rev, Hcur | apply I1; [assumption | constructor]].
      - intros H. inversion H as [|? ? Hcur Hr]; subst.
        destruct (I2 Hr) as [Hs _].
        split; [constructor; assumption | apply all_space_rev, Hcur]. }
    destruct (c =? 13)%N eqn:E13.
    + apply N.eqb_eq in E13. subst c.
      destruct r as [|d r'].
      * apply Hbr; [simpl; lia | reflexivity].
      * destruct (d =? 10)%N eqn:E10; [|apply Hbr; [simpl in *; lia | reflexivity]].
        apply N.eqb_eq in E10. subst d.
        destruct (Hbr r' ltac:(simpl in *; lia) eq_refl) as [I1 I2]. split.
        -- intros Hs Hcur. inversion Hs as [|? ? _ Hs']. apply I1; [|exact Hcur].
           inversion Hs'. constructor; [reflexivity | assumption].
        -- intros H. destruct (I2 H) as [Hs Hcur]. split; [|exact Hcur].
           inversion Hs. repeat constructor; assumption.
    + destruct (is_linebreak c) eqn:Ec.
      * apply Hbr; [lia | apply linebreak_space, Ec].
      * destruct (IH r (c :: cur) ltac:(lia)) as [I1 I2]. split.
        -- intros Hs Hcur. inversion Hs; subst. apply I1; [assumption|].
           constructor; assumption.
        -- intros H. destruct (I2 H) as [Hs Hc]. inversion Hc; subst.
           split; [constructor|]; assumption.
Qed.

Lemma splitlines_space s : all_space s <-> Forall all_space (splitlines s).
Proof.
  destruct (splitlines_aux_space (length s) s [] (le_n _)) as [I1 I2].
  unfold splitlines. split; [intros H; apply I1; [exact H | constructor] | intros H; apply I2, H].
Qed.

Lemma filter_strip_nil ls :
  List.filter nonblank (map strip ls) = [] <-> Forall all_space ls.
Proof.
  induction ls as [|l r IH]; simpl; [split; auto|].
  unfold nonblank at 1. destruct (is_nil (strip l)) eqn:E; simpl.
  - rewrite IH. assert (all_space l) by (apply strip_nil_iff; destruct (strip l); [reflexivity | discriminate]).
    split; [intros; constructor; assumption | intros H'; inversion H'; assumption].
  - split; [discriminate|]. intros H'. inversion H' as [|? ? Hl _].
    apply strip_nil_iff in Hl. rewrite Hl in E. discriminate.
Qed.

Lemma ok_filter_nil L : ok false false L = true -> List.filter nonblank L = [] -> L = [].
Proof.
  destruct L as [|x r]; [reflexivity|]. simpl. unfold nonblank at 1.
  destruct (is_nil x); simpl; [discriminate | discriminate].
Qed.

Lemma all_space_app (a b : pystr) : all_space (a ++ b) <-> all_space a /\ all_space b.
Proof. unfold all_space. apply Forall_app. Qed.

Lemma all_space_join_nl xs : all_space (join nl xs) <-> Forall all_space xs.
Proof.
  induction xs as [|x r IH]; [split; constructor|].
  destruct r as [|y r].
  - simpl. split; [intros H; repeat constructor; exact H | intros H; inversion H; assumption].
  - rewrite join_cons by discriminate. rewrite !all_space_app, IH.
    split.
    + intros (Hx & _ & Hr). constructor; assumption.
    + intros H. inversion H; subst. repeat split; try assumption. repeat constructor.
Qed.

Fixpoint mark_spacer_clear (n : node) :
  mark_spacer (clear_markers n) = mark_spacer n.
Proof.
  destruct n as [s|t cls cs]; cbn [clear_markers mark_spacer]; [reflexivity|].
  destruct (existsb (String.eqb "empty-line") cls) eqn:E;
    cbn [clear_markers mark_spacer]; rewrite E; [reflexivity|].
  f_equal. rewrite map_map. clear E. induction cs as [|c r IH]; simpl; [reflexivity|].
  rewrite mark_spacer_clear. f_equal. exact IH.
Qed.

Lemma strip_nonnil (a : pystr) : strip a <> [] -> is_nil (strip a) = false.
Proof. destruct (strip a); [congruence | reflexivity]. Qed.

Lemma nonnil_of_strip (a : pystr) : strip a <> [] -> a <> [].
Proof. intros H ->. apply H. reflexivity. Qed.

End ContentFacts.

Module ResolveFacts.
Import SpineFacts.

Lemma get_item_In b x it :
  get_item_with_id b x = Some it -> In it (items b) /\ item_id it = x.
Proof.
  unfold get_item_with_id. intros H. apply find_some in H as [Hin Heq].
  apply String.eqb_eq in Heq. split; assumption.
Qed.

Lemma declared_docs_In b sp it :
  In it (declared_docs b sp) <->
  exists e, In e sp /\ get_item_with_id b (entry_id e) = Some it /\ item_type it = ITEM_DOCUMENT.
Proof.
  unfold declared_docs. rewrite in_flat_map. split.
  - intros [e [He H]]. exists e. split; [exact He|].
    destruct (get_item_with_id b (entry_id e)) as [it'|]; [|destruct H].
    destruct (N.eqb (item_type it') ITEM_DOCUMENT) eqn:Et; [|destruct H].
    destruct H as [<-|[]]. apply N.eqb_eq in Et. split; [reflexivity | exact Et].
  - intros [e [He [Hg Ht]]]. exists e. split; [exact He|].
    rewrite Hg. apply N.eqb_eq in Ht. rewrite Ht. left. reflexivity.
Qed.

Lemma iter_decomp b :
  iter_documents_in_order b =
  declared_docs b (spine b) ++
  List.filter (fun it => negb (bool_decide (item_id it ∈ snd (spine_pass b (spine b) ∅))))
              (get_items_of_type b ITEM_DOCUMENT).
Proof.
  unfold iter_documents_in_order. rewrite <- (spine_pass_fst b (spine b) ∅).
  destruct (spine_pass b (spine b) ∅). reflexivity.
Qed.

Lemma in_seen b x :
  x ∈ snd (spine_pass b (spine b) ∅) <->
  exists e it, In e (spine b) /\ entry_id e = x /\
               get_item_with_id b x = Some it /\ item_type it = ITEM_DOCUMENT.
Proof.
  rewrite spine_pass_seen. split; [intros [H|H]; [set_solver | exact H] | intros H; right; exact H].
Qed.

Lemma iter_sound b it :
  In it (iter_documents_in_order b) -> In it (items b) /\ item_type it = ITEM_DOCUMENT.
Proof.
  rewrite iter_decomp, in_app_iff. intros [H|H].
  - apply declared_docs_In in H as [e [_ [Hg Ht]]].
    split; [apply (get_item_In _ _ _ Hg) | exact Ht].
  - apply filter_In in H as [H _]. unfold get_items_of_type in H.
    apply filter_In in H as [Hin Ht]. apply N.eqb_eq in Ht. split; assumption.
Qed.

Lemma iter_complete b it :
  NoDup (map item_id (items b)) -> In it (items b) -> item_type it = ITEM_DOCUMENT ->
  In it (iter_documents_in_order b).
Proof.
  intros Hnd Hin Ht. rewrite iter_decomp, in_app_iff.
  destruct (bool_decide (item_id it ∈ snd (spine_pass b (spine b) ∅))) eqn:Es.
  - left. apply bool_decide_eq_true in Es. apply in_seen in Es as (e & it' & He & Hid & Hg & Ht').
    rewrite (get_item_own_id b it Hnd Hin) in Hg. injection Hg as <-.
    apply declared_docs_In. exists e. rewrite Hid. split; [exact He|].
    split; [apply get_item_own_id; assumption | exact Ht].
  - right. apply filter_In. split; [|rewrite Es; reflexivity].
    unfold get_items_of_type. apply filter_In. split; [exact Hin | apply N.eqb_eq, Ht].
Qed.

Lemma nodup_app_disj {A} (l1 l2 : list A) :
  NoDup l1 -> NoDup l2 -> (forall x, In x l1 -> ~ In x l2) -> NoDup (l1 ++ l2).
Proof.
  induction l1 as [|x r IH]; intros H1 H2 Hd; simpl; [exact H2|].
  inversion H1 as [|? ? Hx Hr]; subst. constructor.
  - rewrite list_elem_of_In, in_app_iff. intros [H|H].
    + apply Hx, list_elem_of_In, H.
    + exact (Hd x (or_introl eq_refl) H).
  - apply IH; [exact Hr | exact H2 | intros y Hy; apply Hd; right; exact Hy].
Qed.

Lemma nodup_lfilter {A} (f : A -> bool) l : NoDup l -> NoDup (List.filter f l).
Proof.
  induction l as [|x r IH]; intros H; simpl; [constructor|].
  inversion H as [|? ? Hx Hr]; subst. destruct (f x); [|apply IH, Hr].
  constructor; [|apply IH, Hr]. rewrite list_elem_of_In, filter_In. intros [Hx' _].
  apply Hx, list_elem_of_In, Hx'.
Qed.

Lemma nodup_map_inv {A B} (f : A -> B) l : NoDup (map f l) -> NoDup l.
Proof.
  induction l as [|x r IH]; intros H; simpl in H; [constructor|].
  inversion H as [|? ? Hx Hr]; subst. constructor; [|apply IH, Hr].
  intros Hin. apply Hx, list_elem_of_In, in_map, list_elem_of_In, Hin.
Qed.

Lemma declared_docs_ids b sp :
  NoDup (map entry_id sp) -> NoDup (map item_id (declared_docs b sp)).
Proof.
  induction sp as [|e r IH]; intros H; [constructor|].
  inversion H as [|? ? He Hr]; subst.
  change (declared_docs b (e :: r)) with
    ((match get_item_with_id b (entry_id e) with
      | Some it => if N.eqb (item_type it) ITEM_DOCUMENT then [it] else []
      | None => [] end) ++ declared_docs b r).
  destruct (get_item_with_id b (entry_id e)) as [it|] eqn:Hg; [|apply IH, Hr].
  destruct (N.eqb (item_type it) ITEM_DOCUMENT); [|apply IH, Hr].
  simpl. constructor; [|apply IH, Hr].
  rewrite (proj2 (get_item_In _ _ _ Hg)), list_elem_of_In.
  intros Hin. apply in_map_iff in Hin as [it' [Hid Hin]].
  apply declared_docs_In in Hin as [e' [He' [Hg' _]]].
  apply He, list_elem_of_In. rewrite <- Hid, (proj2 (get_item_In _ _ _ Hg')). apply in_map, He'.
Qed.

Lemma iter_nodup b :
  NoDup (map item_id (items b)) -> NoDup (map entry_id (spine b)) ->
  NoDup (iter_documents_in_order b).
Proof.
  intros Hi Hs. rewrite iter_decomp. apply nodup_app_disj.
  - apply (nodup_map_inv item_id), declared_docs_ids, Hs.
  - apply nodup_lfilter. unfold get_items_of_type. apply nodup_lfilter.
    apply (nodup_map_inv item_id), Hi.
  - intros it H1 H2. apply filter_In in H2 as [_ H2].
    apply declared_docs_In in H1 as [e [He [Hg Ht]]].
    assert (Hs' : item_id it ∈ snd (spine_pass b (spine b) ∅)).
    { apply in_seen. destruct (get_item_In _ _ _ Hg) as [_ Hid].
      exists e, it. rewrite Hid. repeat split; assumption. }
    apply (bool_decide_eq_true_2 _) in Hs'. rewrite Hs' in H2. discriminate.
Qed.

End ResolveFacts.

Module PathFacts.

Lemma append_cons c (r t : string) : (String c r ++ t)%string = String c (r ++ t).
Proof. reflexivity. Qed.

Lemma append_empty_r (s : string) : (s ++ "")%string = s.
Proof. induction s as [|c r IH]; [reflexivity | now rewrite append_cons, IH]. Qed.

Lemma substring_full (s : string) : String.substring 0 (String.length s) s = s.
Proof. induction s as [|c r IH]; simpl; [reflexivity | f_equal; exact IH]. Qed.

Lemma substring_split (s : string) i :
  i <= String.length s ->
  (String.substring 0 i s ++ String.substring i (String.length s - i) s)%string = s.
Proof.
  revert i. induction s as [|c r IH]; intros [|i] H; simpl in *.
  - reflexivity.
  - lia.
  - now rewrite substring_full.
  - rewrite append_cons, IH by lia. reflexivity.
Qed.

(** [stem] and [suffix] split a name in two. *)
Lemma stem_suffix (name : string) : (stem name ++ suffix name)%string = name.
Proof.
  unfold stem, suffix. destruct (rfind_dot name) as [i|]; [|apply append_empty_r].
  destruct ((0 <? i) && (i <? String.length name - 1)) eqn:E; [|apply append_empty_r].
  apply andb_true_iff in E as [_ E]. apply Nat.ltb_lt in E.
  apply substring_split. lia.
Qed.

End PathFacts.

Module CliFacts.

Lemma truthy_some (s : string) : truthy (Some s) = true <-> s <> ""%string.
Proof.
  simpl. rewrite negb_true_iff. split; intros H.
  - intros ->. discriminate.
  - apply String.eqb_neq, H.
Qed.

Lemma truthy_true o : truthy o = true -> exists s, o = Some s /\ s <> ""%string /\ arg_val o = s.
Proof.
  destruct o as [s|]; [|discriminate]. intros H. exists s.
  split; [reflexivity|]. split; [apply truthy_some, H | reflexivity].
Qed.

Lemma drop_empty_truthy o : truthy (drop_empty o) = truthy o.
Proof. destruct o as [s|]; simpl; [|reflexivity]. destruct (String.eqb s "") eqn:E; simpl; rewrite ?E; reflexivity. Qed.

Lemma drop_empty_arg_val o : arg_val (drop_empty o) = arg_val o.
Proof.
  destruct o as [s|]; simpl; [|reflexivity].
  destruct (String.eqb s "") eqn:E; [|reflexivity]. apply String.eqb_eq in E. now subst.
Qed.

(** [main] depends on each argument only through its truth value and its
    string. *)
Lemma main_by_values a a' :
  truthy (input_file a) = truthy (input_file a') ->
  truthy (output_file a) = truthy (output_file a') ->
  truthy (input_dir a) = truthy (input_dir a') ->
  truthy (output_dir a) = truthy (output_dir a') ->
  arg_val (input_file a) = arg_val (input_file a') ->
  arg_val (output_file a) = arg_val (output_file a') ->
  arg_val (input_dir a) = arg_val (input_dir a') ->
  arg_val (output_dir a) = arg_val (output_dir a') ->
  main a = main a'.
Proof. intros H1 H2 H3 H4 H5 H6 H7 H8. unfold main. rewrite H1, H2, H3, H4, H5, H6, H7, H8. reflexivity. Qed.

End CliFacts.

Import ContentFacts.


(** Extra (normalizer, text level): the lines with content of the output of
    [clean_text_preserving_gaps] are exactly the stripped lines with content
    of the extracted text, in order. *)
Theorem clean_text_keeps_content (soup : document) :
  List.filter nonblank (splitlines (clean_text_preserving_gaps soup)) =
  List.filter nonblank (map strip (splitlines (get_text nl (mark_spacers soup)))).
Proof. unfold clean_text_preserving_gaps. apply clean_raw_text_content. Qed.

(** Extra (normalizer): the output is empty exactly when every string of
    the document, after the markers are replaced, is whitespace only. *)
Theorem clean_text_empty_iff (soup : document) :
  clean_text_preserving_gaps soup = [] <->
  Forall all_space (flat_map all_strings (mark_spacers soup)).
Proof.
  unfold clean_text_preserving_gaps. rewrite <- all_space_join_nl. fold (get_text nl (mark_spacers soup)).
  generalize (get_text nl (mark_spacers soup)) as raw. intros raw.
  rewrite splitlines_space, <- filter_strip_nil, <- clean_lines_content.
  split.
  - intros H. destruct (clean_raw_text_lines raw) as [E|E]; rewrite E, H; reflexivity.
  - intros H. apply ok_filter_nil in H; [|apply clean_lines_ok].
    unfold clean_raw_text. rewrite H. reflexivity.
Qed.

(** Extra (normalizer): the contents of an [.empty-line] marker never reach
    the output; clearing the children of every marker changes nothing. *)
Theorem marker_contents_ignored (soup : document) :
  clean_text_preserving_gaps (map clear_markers soup) = clean_text_preserving_gaps soup.
Proof.
  unfold clean_text_preserving_gaps, mark_spacers. rewrite map_map.
  f_equal. f_equal. apply map_ext. apply mark_spacer_clear.
Qed.

(** Extra (normalizer): between two one-line paragraphs, a gap marker
    yields exactly one blank line, whatever the marker contains; without
    the marker the two lines are adjacent. *)
Theorem gap_marker_one_blank_line (t1 t2 t : string) (c1 c2 cls : list string)
    (cs : list node) (a b : pystr)
    (Hc1 : existsb (String.eqb "empty-line") c1 = false)
    (Hc2 : existsb (String.eqb "empty-line") c2 = false)
    (Hm : existsb (String.eqb "empty-line") cls = true)
    (Ha : no_break a) (Hb : no_break b) (Ha' : strip a <> []) (Hb' : strip b <> []) :
  clean_text_preserving_gaps [Elem t1 c1 [Text a]; Elem t cls cs; Elem t2 c2 [Text b]] =
    strip a ++ nl ++ nl ++ strip b /\
  clean_text_preserving_gaps [Elem t1 c1 [Text a]; Elem t2 c2 [Text b]] =
    strip a ++ nl ++ strip b.
Proof.
  pose proof (strip_nonnil a Ha') as Ea. pose proof (strip_nonnil b Hb') as Eb.
  pose proof (nonnil_of_strip b Hb') as Hbn.
  unfold clean_text_preserving_gaps, mark_spacers, get_text, clean_raw_text.
  cbn [map mark_spacer]. rewrite Hc1, Hc2, Hm. simpl.
  split.
  - change (splitlines (a ++ 10%N :: 10%N :: 10%N :: b))
      with (splitlines (join nl ([a; []; []] ++ [b]))).
    rewrite splitlines_join by (repeat constructor; assumption).
    unfold clean_lines. cbn [app fold_left]. unfold clean_step at 4. cbn [cleaned previous_blank].
    rewrite Ea. cbn [cleaned previous_blank].
    unfold clean_step. change (strip []) with (@nil N). cbn -[strip join].
    rewrite Eb. cbn -[strip join].
    change (strip a ++ 10%N :: 10%N :: strip b) with (join nl [strip a; []; strip b]).
    apply stripped_strip, join_stripped; [discriminate| |simpl; exact Eb].
    simpl. rewrite Ea, Eb, !strip_stripped. reflexivity.
  - change (splitlines (a ++ 10%N :: b)) with (splitlines (join nl ([a] ++ [b]))).
    rewrite splitlines_join by (repeat constructor; assumption).
    unfold clean_lines. cbn [app fold_left]. unfold clean_step at 2. cbn [cleaned previous_blank].
    rewrite Ea. cbn [cleaned previous_blank].
    unfold clean_step. cbn -[strip join].
    rewrite Eb. cbn -[strip join].
    change (strip a ++ 10%N :: strip b) with (join nl [strip a; strip b]).
    apply stripped_strip, join_stripped; [discriminate| |simpl; exact Eb].
    simpl. rewrite Ea, Eb, !strip_stripped. reflexivity.
Qed.

Import ResolveFacts.

(** Extra (resolver): everything [iter_documents_in_order] yields is an
    item of the manifest of type [ITEM_DOCUMENT]; spine entries that are
    missing or not documents are never yielded. *)
Theorem iter_documents_sound (b : book) :
  Forall (fun it => In it (items b) /\ item_type it = ITEM_DOCUMENT) (iter_documents_in_order b).
Proof. apply Forall_forall. intros it Hin. apply iter_sound, list_elem_of_In, Hin. Qed.

(** Extra (resolver): when manifest ids are unique, every document item is
    yielded, whether the spine lists it or not. *)
Theorem iter_documents_complete (b : book) (it : item)
    (Hnd : NoDup (map item_id (items b))) (Hin : In it (items b))
    (Ht : item_type it = ITEM_DOCUMENT) :
  In it (iter_documents_in_order b).
Proof. apply iter_complete; assumption. Qed.

(** Extra (resolver): with unique manifest ids and a spine without repeated
    ids, the generator yields each document item exactly once: its output is
    a permutation of [get_items_of_type(ITEM_DOCUMENT)]. *)
Theorem iter_documents_permutation (b : book)
    (Hi : NoDup (map item_id (items b))) (Hs : NoDup (map entry_id (spine b))) :
  iter_documents_in_order b ≡ₚ get_items_of_type b ITEM_DOCUMENT.
Proof.
  apply NoDup_Permutation.
  - apply iter_nodup; assumption.
  - apply nodup_lfilter, (nodup_map_inv item_id), Hi.
  - intros it. unfold get_items_of_type. rewrite !list_elem_of_In, filter_In, N.eqb_eq. split.
    + apply iter_sound.
    + intros [Hin Ht]. apply iter_complete; assumption.
Qed.

Import PathFacts.

(** Extra (batch): every conversion writes to the source name with its
    last extension, an ".epub" in any letter case, replaced by ".txt". *)
Theorem convert_directory_target_names (listing : list (string * entry_kind))
    (jobs : list (string * string))
    (Hrun : convert_directory true listing = Converted jobs) :
  Forall (fun j => exists base ext, fst j = (base ++ ext)%string /\
                                    lower ext = ".epub"%string /\
                                    snd j = (base ++ ".txt")%string) jobs.
Proof.
  rewrite convert_directory_shape in Hrun.
  destruct (is_nil _); [discriminate|]. injection Hrun as <-.
  apply Forall_forall. intros j Hj. apply list_elem_of_In, in_map_iff in Hj as [f [<- Hf]].
  exists (stem f), (suffix f). simpl. split; [symmetry; apply stem_suffix|]. split; [|reflexivity].
  apply list_elem_of_In in Hf.
  rewrite (merge_sort_Permutation name_le (map fst (List.filter is_epub_entry listing))) in Hf.
  apply list_elem_of_In, in_map_iff in Hf as [[f' k] [Heq Hin]]. simpl in Heq. subst f'.
  apply filter_In in Hin as [_ Hin]. unfold is_epub_entry in Hin. simpl in Hin.
  destruct k; try discriminate. apply String.eqb_eq, Hin.
Qed.

Import CliFacts.

Ltac main_cases a :=
  destruct a as [f1 f2 d1 d2]; unfold main; cbn [input_file output_file input_dir output_dir];
  destruct (truthy f1) eqn:T1, (truthy f2) eqn:T2, (truthy d1) eqn:T3, (truthy d2) eqn:T4;
  cbn [andb orb negb].

(** Extra (CLI): [main] runs the single-file conversion exactly when both
    file arguments are given as non-empty strings and no directory argument
    is; it passes them unchanged. *)
Theorem main_runs_file_iff (a : cli_args) (i o : string) :
  main a = RunFile i o <->
  input_file a = Some i /\ output_file a = Some o /\ i <> ""%string /\ o <> ""%string /\
  truthy (input_dir a) = false /\ truthy (output_dir a) = false.
Proof.
  main_cases a; cbn [input_file output_file input_dir output_dir]; split; intros H;
    try discriminate;
    try (destruct H as (E1 & E2 & Hi & Ho & E3 & E4); subst;
         pose proof (proj2 (truthy_some i) Hi); pose proof (proj2 (truthy_some o) Ho);
         congruence).
  - injection H as <- <-.
    destruct (truthy_true f1 T1) as (s1 & -> & Hs1 & _).
    destruct (truthy_true f2 T2) as (s2 & -> & Hs2 & _).
    repeat split; assumption.
  - destruct H as (-> & -> & _). reflexivity.
Qed.

(** Extra (CLI): [main] runs the batch conversion exactly when both
    directory arguments are given as non-empty strings and no file argument
    is; it passes them unchanged. *)
Theorem main_runs_dir_iff (a : cli_args) (i o : string) :
  main a = RunDir i o <->
  input_dir a = Some i /\ output_dir a = Some o /\ i <> ""%string /\ o <> ""%string /\
  truthy (input_file a) = false /\ truthy (output_file a) = false.
Proof.
  main_cases a; cbn [input_file output_file input_dir output_dir]; split; intros H;
    try discriminate;
    try (destruct H as (E1 & E2 & Hi & Ho & E3 & E4); subst;
         pose proof (proj2 (truthy_some i) Hi); pose proof (proj2 (truthy_some o) Ho);
         congruence).
  - injection H as <- <-.
    destruct (truthy_true d1 T3) as (s1 & -> & Hs1 & _).
    destruct (truthy_true d2 T4) as (s2 & -> & Hs2 & _).
    repeat split; assumption.
  - destruct H as (-> & -> & _). reflexivity.
Qed.

Ltac main_err :=
  unfold msg_both_modes, msg_file_pair, msg_dir_pair, msg_no_mode; split; intros H;
  first [ reflexivity | discriminate H | solve [intuition] | solve [intuition discriminate] ].

(** Extra (CLI): mixing modes is refused first: [main] reports "not both"
    exactly when some file argument and some directory argument are
    non-empty, even if neither pair is complete. *)
Theorem main_both_modes_iff (a : cli_args) :
  main a = UsageError msg_both_modes <->
  (truthy (input_file a) = true \/ truthy (output_file a) = true) /\
  (truthy (input_dir a) = true \/ truthy (output_dir a) = true).
Proof. main_cases a; cbn [input_file output_file input_dir output_dir]; rewrite ?T1, ?T2, ?T3, ?T4; main_err. Qed.

(** Extra (CLI): the other usage errors: one file argument without the
    other, one directory argument without the other, and no argument at
    all, each with its own message. *)
Theorem main_incomplete_or_missing (a : cli_args) :
  (main a = UsageError msg_file_pair <->
     xorb (truthy (input_file a)) (truthy (output_file a)) = true /\
     truthy (input_dir a) = false /\ truthy (output_dir a) = false) /\
  (main a = UsageError msg_dir_pair <->
     xorb (truthy (input_dir a)) (truthy (output_dir a)) = true /\
     truthy (input_file a) = false /\ truthy (output_file a) = false) /\
  (main a = UsageError msg_no_mode <->
     truthy (input_file a) = false /\ truthy (output_file a) = false /\
     truthy (input_dir a) = false /\ truthy (output_dir a) = false).
Proof.
  main_cases a; cbn [input_file output_file input_dir output_dir]; rewrite ?T1, ?T2, ?T3, ?T4;
    cbn [xorb]; (split; [|split]); main_err.
Qed.

(** Extra (CLI): an argument given as the empty string behaves as an
    argument not given. *)
Theorem main_empty_is_absent (a : cli_args) :
  main {| input_file := drop_empty (input_file a); output_file := drop_empty (output_file a);
          input_dir := drop_empty (input_dir a); output_dir := drop_empty (output_dir a) |}
  = main a.
Proof. apply main_by_values; cbn [input_file output_file input_dir output_dir];
  apply drop_empty_truthy || apply drop_empty_arg_val. Qed.

(** Extra (normalizer): no line of the output has leading or trailing
    whitespace. *)
Theorem clean_text_lines_stripped (soup : document) :
  Forall (fun l => is_stripped l = true) (splitlines (clean_text_preserving_gaps soup)).
Proof.
  unfold clean_text_preserving_gaps. generalize (get_text nl (mark_spacers soup)). intros raw.
  pose proof (ok_stripped _ _ _ (clean_lines_ok (splitlines raw))) as H.
  destruct (clean_raw_text_lines raw) as [E|E]; rewrite E in H; [exact H|].
  apply Forall_app in H as [H _]. exact H.
Qed.

(** Extra (conversion): a package without document items converts to the
    empty text, whatever its spine says. *)
Theorem epub_to_txt_no_documents (b : book)
    (H : get_items_of_type b ITEM_DOCUMENT = []) :
  epub_to_txt b = [].
Proof.
  unfold epub_to_txt. destruct (iter_documents_in_order b) as [|it r] eqn:E; [reflexivity|].
  exfalso. destruct (iter_sound b it) as [Hin Ht]; [rewrite E; left; reflexivity|].
  assert (Hd : In it (get_items_of_type b ITEM_DOCUMENT)).
  { unfold get_items_of_type. apply filter_In. split; [exact Hin | apply N.eqb_eq, Ht]. }
  rewrite H in Hd. destruct Hd.
Qed.


(* ----------------------------------------------------------------- *)
(** Instances of the extra properties with hypotheses. *)

Lemma gap_marker_one_blank_line_witness :
  no_break (py "Hello") /\ no_break (py "World") /\
  clean_text_preserving_gaps
    [Elem "p" [] [Text (py "Hello")];
     Elem "div" ["empty-line"%string] [Text (py "dropped")];
     Elem "p" [] [Text (py "World")]] = strip (py "Hello") ++ nl ++ nl ++ strip (py "World") /\
  clean_text_preserving_gaps
    [Elem "p" [] [Text (py "Hello")]; Elem "p" [] [Text (py "World")]] =
    strip (py "Hello") ++ nl ++ strip (py "World").
Proof.
  assert (Ha : no_break (py "Hello")) by (vm_compute; repeat constructor).
  assert (Hb : no_break (py "World")) by (vm_compute; repeat constructor).
  split; [exact Ha | split; [exact Hb|]].
  apply (gap_marker_one_blank_line "p" "p" "div" [] [] ["empty-line"%string]
           [Text (py "dropped")] (py "Hello") (py "World"));
    try reflexivity; try assumption; vm_compute; discriminate.
Defined.

(** A package whose spine names a missing id, a document given as a
    tuple, and a stylesheet; one document is left out of the spine. *)
Definition typed_item (id : string) (t : N) : item :=
  {| item_id := id; item_type := t; item_content := [] |}.

Definition mixed_book : book :=
  {| spine := [SBare "missing"; STuple "b" ["no"%string]; SBare "css"];
     items := [typed_item "a" ITEM_DOCUMENT; typed_item "b" ITEM_DOCUMENT;
               typed_item "css" 2] |}.

Lemma iter_documents_complete_witness :
  NoDup (map item_id (items mixed_book)) /\
  In (typed_item "a" ITEM_DOCUMENT) (iter_documents_in_order mixed_book).
Proof.
  assert (H : NoDup (map item_id (items mixed_book))).
  { apply (bool_decide_unpack _). vm_compute. reflexivity. }
  split; [exact H|].
  apply (iter_documents_complete mixed_book (typed_item "a" ITEM_DOCUMENT) H);
    [simpl; left; reflexivity | reflexivity].
Defined.

Lemma iter_documents_permutation_witness :
  NoDup (map item_id (items mixed_book)) /\ NoDup (map entry_id (spine mixed_book)) /\
  iter_documents_in_order mixed_book ≡ₚ get_items_of_type mixed_book ITEM_DOCUMENT.
Proof.
  assert (Hi : NoDup (map item_id (items mixed_book))).
  { apply (bool_decide_unpack _). vm_compute. reflexivity. }
  assert (Hs : NoDup (map entry_id (spine mixed_book))).
  { apply (bool_decide_unpack _). vm_compute. reflexivity. }
  split; [exact Hi | split; [exact Hs|]].
  exact (iter_documents_permutation mixed_book Hi Hs).
Defined.

Lemma convert_directory_target_names_witness :
  convert_directory true [("b.epub", RegularFile); ("A.EPUB", RegularFile);
                          ("x.txt", RegularFile); ("d.epub", Directory)]%string
    = Converted [("A.EPUB", "A.txt"); ("b.epub", "b.txt")]%string /\
  Forall (fun j => exists base ext, fst j = (base ++ ext)%string /\
                                    lower ext = ".epub"%string /\
                                    snd j = (base ++ ".txt")%string)
         [("A.EPUB", "A.txt"); ("b.epub", "b.txt")]%string.
Proof.
  assert (H : convert_directory true [("b.epub", RegularFile); ("A.EPUB", RegularFile);
                                      ("x.txt", RegularFile); ("d.epub", Directory)]%string
              = Converted [("A.EPUB", "A.txt"); ("b.epub", "b.txt")]%string)
    by (vm_compute; reflexivity).
  split; [exact H|]. exact (convert_directory_target_names _ _ H).
Defined.

(** A package with a stylesheet only; its spine names it. *)
Definition style_book : book :=
  {| spine := [SBare "css"]; items := [typed_item "css" 2] |}.

Lemma epub_to_txt_no_documents_witness :
  get_items_of_type style_book ITEM_DOCUMENT = [] /\ epub_to_txt style_book = [].
Proof.
  assert (H : get_items_of_type style_book ITEM_DOCUMENT = []) by reflexivity.
  split; [exact H | exact (epub_to_txt_no_documents style_book H)].
Defined.

